(** * Froala-Reactive: the option-sync adapter of [froala-reactive.js]

    A shallow embedding of the three functions of the adapter
    ([Template.froalaReactive.rendered], [Template.froalaReactive.destroyed]
    and the two internal helpers) together with the properties the
    specification states about them.

    The adapter talks to three collaborators that are not part of the
    repository: the jQuery object [$input], the Froala widget reached through
    [$input[froalaMethod](...)], and the Meteor template instance [tmpl].
    Every call the adapter makes on them is recorded, in program order, in a
    trace of [effect]s; a widget call may throw, which is decided by a
    [widget] oracle. *)

From Stdlib Require Import List String Ascii Bool ZArith Lia.
Import ListNotations.
Local Open Scope string_scope.
Local Open Scope list_scope.
Set Warnings "-register-all".

(** ** JavaScript values *)

(** The values a data context can hold.  Numbers are restricted to integers;
    a function object is identified by its reference. *)
Inductive value : Type :=
| VUndefined
| VNull
| VBool (b : bool)
| VNum (n : Z)
| VStr (s : string)
| VFun (ref : nat)
| VArr (elems : list value)
| VObj (props : list (string * value)).

(** A data context (an Options Snapshot): the own properties of a plain
    object, in the order [Object.keys] enumerates them. *)
Definition data := list (string * value).

Module JS.

(** [Object.keys(o)] *)
Definition keys (o : data) : list string := map fst o.

(** The members every plain object inherits from [Object.prototype]: the
    built-in functions, each a function object of its own, and [__proto__],
    which reads as [Object.prototype] itself, an object without enumerable
    keys.  The function references from 1000 on stand for these built-ins. *)
Definition Object_prototype : data :=
  [("constructor", VFun 1000); ("toString", VFun 1001);
   ("toLocaleString", VFun 1002); ("valueOf", VFun 1003);
   ("hasOwnProperty", VFun 1004); ("isPrototypeOf", VFun 1005);
   ("propertyIsEnumerable", VFun 1006); ("__defineGetter__", VFun 1007);
   ("__defineSetter__", VFun 1008); ("__lookupGetter__", VFun 1009);
   ("__lookupSetter__", VFun 1010); ("__proto__", VObj [])].

(** What reading [k] finds on the prototype chain of a plain object that
    does not own [k]: the member of [Object.prototype], else [undefined]. *)
Definition inherited (k : string) : value :=
  match find (fun p => String.eqb (fst p) k) Object_prototype with
  | Some p => snd p
  | None => VUndefined
  end.

(** [o[k]]: the own property, else the inherited one, else [undefined]. *)
Fixpoint get (o : data) (k : string) : value :=
  match o with
  | [] => inherited k
  | (k', v) :: rest => if String.eqb k' k then v else get rest k
  end.

(** [Boolean(v)], the coercion behind [if (v)] and [v && ...]. *)
Definition truthy (v : value) : bool :=
  match v with
  | VUndefined | VNull => false
  | VBool b => b
  | VNum n => negb (n =? 0)%Z
  | VStr s => negb (String.eqb s "")
  | VFun _ | VArr _ | VObj _ => true
  end.

(** [_.isFunction(v)] *)
Definition isFunction (v : value) : bool :=
  match v with VFun _ => true | _ => false end.

(** [s.indexOf(p)]: position of the first occurrence of [p] in [s], or -1. *)
Definition indexOf (s p : string) : Z :=
  match String.index 0 p s with
  | Some i => Z.of_nat i
  | None => (-1)%Z
  end.

(** [s.substring(n)]: [s] without its first [n] characters. *)
Fixpoint substring (n : nat) (s : string) : string :=
  match n, s with
  | O, _ => s
  | S n', String _ s' => substring n' s'
  | S _, EmptyString => EmptyString
  end.

(** [_.isEqual(a, b)], Underscore's deep equality (a library function):
    primitives by value, functions by reference, arrays element by element,
    plain objects by having the same number of keys and equal values under
    every key, whatever the order of the keys. *)
Fixpoint isEqual (a b : value) {struct a} : bool :=
  match a, b with
  | VUndefined, VUndefined => true
  | VNull, VNull => true
  | VBool x, VBool y => Bool.eqb x y
  | VNum x, VNum y => (x =? y)%Z
  | VStr x, VStr y => String.eqb x y
  | VFun x, VFun y => Nat.eqb x y
  | VArr xs, VArr ys =>
      (fix elems (xs ys : list value) {struct xs} : bool :=
         match xs, ys with
         | [], [] => true
         | x :: xs', y :: ys' => isEqual x y && elems xs' ys'
         | _, _ => false
         end) xs ys
  | VObj ps, VObj qs =>
      Nat.eqb (List.length ps) (List.length qs) &&
      (fix props (ps : list (string * value)) {struct ps} : bool :=
         match ps with
         | [] => true
         | (k, v) :: ps' =>
             match find (fun q => String.eqb (fst q) k) qs with
             | Some q => isEqual v (snd q)
             | None => false
             end && props ps'
         end) ps
  | _, _ => false
  end.

End JS.

(** ** The two internal helpers *)

(** The jQuery object [$input]: the number of matched elements and the two
    properties the adapter probes on it. *)
Record jquery : Type := {
  jq_length : nat;
  froalaEditable : value;
  editable : value
}.

(** The two instance-method names, ['froalaEditable'] and ['editable']. *)
Inductive method : Type := FroalaEditable | Editable.

Definition method_name (m : method) : string :=
  match m with FroalaEditable => "froalaEditable" | Editable => "editable" end.

(** [getFroalaEditableJQueryInstanceMethod]; the argument is [None] for a
    falsy [froalaJQueryObject], the result [None] for [null]. *)
Definition getFroalaEditableJQueryInstanceMethod
    (froalaJQueryObject : option jquery) : option method :=
  match froalaJQueryObject with
  | Some jq =>
      if JS.isFunction (froalaEditable jq) then Some FroalaEditable
      else if JS.isFunction (editable jq) then Some Editable
      else None
  | None => None
  end.

(** [getEventHandlerNames] *)
Definition getEventHandlerNames (tmplData : data) : list string :=
  filter (fun opt => (JS.indexOf opt "_on" =? 0)%Z
                     && JS.isFunction (JS.get tmplData opt))
         (JS.keys tmplData).

(** ** Effects *)

(** The argument lists the adapter passes to [$input[froalaMethod]]. *)
Inductive wargs : Type :=
| Init (options : data)                  (* (tmpl.data) *)
| SetHTML (html : value)                 (* ('setHTML', v) *)
| RestoreSelectionByMarkers              (* ('restoreSelectionByMarkers') *)
| SetOption (opt : string) (v : value)   (* ('option', opt, v) *)
| Destroy.                               (* ('destroy') *)

(** What the adapter does to its collaborators.  [On name opt] is
    [$input.on(name, h)] with [h] the listener closed over [opt];
    [PreventDefault] and [Apply] are the two statements of that listener. *)
Inductive effect : Type :=
| Call (m : method) (a : wargs)
| On (name opt : string)
| Unbind (name : string)
| PreventDefault (e : value)
| Apply (f : value) (this : data) (arguments : list value).

Inductive exn : Type :=
| Error (message : string)      (* new Error(message) *)
| Foreign (thrown : value).     (* whatever a collaborator throws *)

Inductive outcome (A : Type) : Type :=
| Normal (a : A)
| Throw (err : exn).
Arguments Normal {A} a.
Arguments Throw {A} err.

(** The widget decides, from everything done so far and the call at hand,
    whether the call returns ([None]) or throws. *)
Definition widget := list effect -> method -> wargs -> option exn.

(** A computation receives the effects performed before it started and
    yields the effects it performs itself, in order, and how it ends. *)
Definition M (A : Type) : Type := list effect -> list effect * outcome A.

Definition ret {A} (a : A) : M A := fun _ => ([], Normal a).

Definition throw {A} (err : exn) : M A := fun _ => ([], Throw err).

Definition bind {A B} (c : M A) (k : A -> M B) : M B :=
  fun past =>
    match c past with
    | (t, Normal a) => let (t', r) := k a (past ++ t) in (t ++ t', r)
    | (t, Throw err) => (t, Throw err)
    end.

Definition emit (e : effect) : M unit := fun _ => ([e], Normal tt).

(** [try { c } catch (err) {}] *)
Definition try_catch (c : M unit) : M unit :=
  fun past => (fst (c past), Normal tt).

Notation "x <- c ;; k" := (bind c (fun x => k))
  (at level 61, c at next level, right associativity).
Notation "c ;; k" := (bind c (fun _ => k))
  (at level 61, right associativity).

(** [_.each(l, f)] *)
Fixpoint each {A} (l : list A) (f : A -> M unit) : M unit :=
  match l with
  | [] => ret tt
  | x :: l' => f x ;; each l' f
  end.

(** ** The template *)

(** The template instance [tmpl] as the adapter uses it: [tmpl.data] and the
    result of [tmpl.$('.froala-reactive-meteorized')].  The adapter reads
    [tmpl.data] at mount, in every listener and at unmount, and never assigns
    it; the data contexts the reactive source delivers later reach the
    adapter through [Template.currentData()] only. *)
Record template : Type := {
  tmpl_data : data;
  tmpl_input : jquery
}.

(** What the closures created by [rendered] share: [tmpl], [froalaMethod] and
    the variable [lastData], which only the autorun body assigns. *)
Record instance : Type := {
  tmpl : template;
  froalaMethod : method;
  lastData : data
}.

(** The DOM event name of an [_on...] option: ['editable.' + opt.substring(3)] *)
Definition _eventName (opt : string) : string :=
  "editable." ++ JS.substring 3 opt.

Section Adapter.

Variable w : widget.

(** [$input[m](...)] *)
Definition call (m : method) (a : wargs) : M unit :=
  fun past =>
    ([Call m a],
     match w past m a with
     | Some err => Throw err
     | None => Normal tt
     end).

(** [Template.froalaReactive.rendered], up to and including the registration
    of the autorun; the result is the state its closures share. *)
Definition rendered (this : template) : M instance :=
  let tmpl := this in
  let lastData := tmpl_data tmpl in
  let input := tmpl_input tmpl in
  if negb (jq_length input =? 1)%nat then
    throw (Error "invalid-froala-reactive-template")
  else
    match getFroalaEditableJQueryInstanceMethod (Some input) with
    | None => throw (Error "invalid-froala-editor-plugin")
    | Some froalaMethod =>
        call froalaMethod (Init (tmpl_data tmpl)) ;;
        (if JS.truthy (JS.get (tmpl_data tmpl) "_value")
         then call froalaMethod (SetHTML (JS.get (tmpl_data tmpl) "_value"))
         else ret tt) ;;
        let eventHandlers := getEventHandlerNames (tmpl_data tmpl) in
        each eventHandlers (fun opt => emit (On (_eventName opt) opt)) ;;
        ret {| tmpl := tmpl; froalaMethod := froalaMethod;
               lastData := lastData |}
    end.

(** The listener [rendered] registers for [opt], called with [arguments]
    [e :: rest]. *)
Definition listener (inst : instance) (opt : string)
    (e : value) (rest : list value) : M unit :=
  emit (PreventDefault e) ;;
  emit (Apply (JS.get (tmpl_data (tmpl inst)) opt) (lastData inst) (e :: rest)).

(** The options the autorun body finds changed. *)
Definition changedOpts (lastData _data : data) : list string :=
  filter (fun opt => negb (JS.indexOf opt "_" =? 0)%Z
                     && negb (JS.isEqual (JS.get lastData opt)
                                         (JS.get _data opt)))
         (JS.keys _data).

(** One run of the autorun body; [_data] is what [Template.currentData()]
    returns. *)
Definition autorun (inst : instance) (_data : data) : M instance :=
  let m := froalaMethod inst in
  (if JS.truthy (JS.get _data "_value")
      && negb (JS.isEqual (JS.get (lastData inst) "_value")
                          (JS.get _data "_value"))
   then call m (SetHTML (JS.get _data "_value")) ;;
        call m RestoreSelectionByMarkers
   else ret tt) ;;
  each (changedOpts (lastData inst) _data)
       (fun opt => call m (SetOption opt (JS.get _data opt))) ;;
  ret {| tmpl := tmpl inst; froalaMethod := m; lastData := _data |}.

(** [Template.froalaReactive.destroyed] *)
Definition destroyed (this : template) : M unit :=
  let tmpl := this in
  let input := tmpl_input tmpl in
  match getFroalaEditableJQueryInstanceMethod (Some input) with
  | None => ret tt
  | Some froalaMethod =>
      let eventHandlers := getEventHandlerNames (tmpl_data tmpl) in
      each eventHandlers (fun opt => emit (Unbind (_eventName opt))) ;;
      try_catch (call froalaMethod Destroy)
  end.

(** Successive runs of the autorun body, one per data context the reactive
    source delivers.  What the host does after a run that throws is its own
    business: the sequence ends there. *)
Fixpoint reruns (inst : instance) (contexts : list data) : M instance :=
  match contexts with
  | [] => ret inst
  | _data :: contexts' => inst' <- autorun inst _data ;; reruns inst' contexts'
  end.

End Adapter.

(** ** Event dispatch *)

(** What one effect does to the listeners bound on [$input], kept as pairs
    of the event name and the option the listener is closed over, in the
    order they were bound.  A listener is told apart by the name it was bound
    under, taken as a whole: [Unbind name] removes the listeners bound under
    exactly [name].  How jQuery reads a name as an event type followed by
    namespaces, and which elements an unbind reaches, is left out. *)
Definition bindStep (bound : list (string * string)) (e : effect)
    : list (string * string) :=
  match e with
  | On name opt => bound ++ [(name, opt)]
  | Unbind name => filter (fun b => negb (String.eqb (fst b) name)) bound
  | _ => bound
  end.

(** The listeners bound on [$input] once the effects [t] have happened. *)
Definition listeners (t : list effect) : list (string * string) :=
  fold_left bindStep t [].

(** The DOM fires [name] on [$input]: every listener bound under exactly
    that name runs with the raw event [e] and the parameters [rest] of the
    trigger. *)
Definition trigger (inst : instance) (past : list effect) (name : string)
    (e : value) (rest : list value) : M unit :=
  each (filter (fun b => String.eqb (fst b) name) (listeners past))
       (fun b => listener inst (snd b) e rest).

(** ** Well-formed values *)

Fixpoint distinct (ks : list string) : bool :=
  match ks with
  | [] => true
  | k :: ks' => negb (existsb (String.eqb k) ks') && distinct ks'
  end.

(** An object has each key once, at every depth. *)
Fixpoint wf (v : value) : bool :=
  match v with
  | VArr xs => forallb wf xs
  | VObj ps => distinct (map fst ps) && forallb (fun p => wf (snd p)) ps
  | _ => true
  end.

(** A widget none of whose calls throws. *)
Definition quiet (w : widget) : Prop := forall past m a, w past m a = None.

(** The widget calls among some effects, and the kinds of call. *)
Definition calls (t : list effect) : list wargs :=
  flat_map (fun e => match e with Call _ a => [a] | _ => [] end) t.

Definition is_SetHTML (a : wargs) : bool :=
  match a with SetHTML _ => true | _ => false end.

Definition is_Restore (a : wargs) : bool :=
  match a with RestoreSelectionByMarkers => true | _ => false end.

Definition is_Init (a : wargs) : bool :=
  match a with Init _ => true | _ => false end.


(** The event names subscribed, and unsubscribed, among some effects. *)
Definition subscribed (t : list effect) : list string :=
  flat_map (fun e => match e with On name _ => [name] | _ => [] end) t.


(** [l] is a subsequence of [l']. *)
Inductive Subseq {A} : list A -> list A -> Prop :=
| Subseq_nil : Subseq [] []
| Subseq_skip x l l' : Subseq l l' -> Subseq l (x :: l')
| Subseq_keep x l l' : Subseq l l' -> Subseq (x :: l) (x :: l').

(** ASCII lower-casing, [s.toLowerCase()]. *)
Definition lower_ascii (c : ascii) : ascii :=
  let n := nat_of_ascii c in
  if (65 <=? n)%nat && (n <=? 90)%nat then ascii_of_nat (n + 32) else c.

Fixpoint toLowerCase (s : string) : string :=
  match s with
  | EmptyString => EmptyString
  | String c s' => String (lower_ascii c) (toLowerCase s')
  end.

(** ** Traces, lifecycles and sample templates *)

(** The content calls of one run of the autorun body. *)
Definition contentCalls (m : method) (lastData _data : data) : list effect :=
  if JS.truthy (JS.get _data "_value")
     && negb (JS.isEqual (JS.get lastData "_value") (JS.get _data "_value"))
  then [Call m (SetHTML (JS.get _data "_value"));
        Call m RestoreSelectionByMarkers]
  else [].

Definition optionCalls (m : method) (lastData _data : data) : list effect :=
  map (fun opt => Call m (SetOption opt (JS.get _data opt)))
      (changedOpts lastData _data).

(** What a run of the autorun body passes to the widget. *)
Definition autorunArgs (lastData _data : data) : list wargs :=
  (if JS.truthy (JS.get _data "_value")
      && negb (JS.isEqual (JS.get lastData "_value") (JS.get _data "_value"))
   then [SetHTML (JS.get _data "_value"); RestoreSelectionByMarkers]
   else [])
  ++ map (fun opt => SetOption opt (JS.get _data opt))
         (changedOpts lastData _data).

(** A template on which the plugin is missing, and a widget that throws on
    every call. *)
Definition no_plugin : template :=
  {| tmpl_data := [("_value", VStr "<p>hi</p>")];
     tmpl_input := {| jq_length := 1; froalaEditable := VUndefined;
                      editable := VStr "x" |} |}.

Definition hostile : widget := fun _ _ _ => Some (Foreign (VStr "boom")).

Definition two_elements : template :=
  {| tmpl_data := [("_value", VStr "<p>hi</p>"); ("_onSave", VFun 0)];
     tmpl_input := {| jq_length := 2; froalaEditable := VUndefined;
                      editable := VFun 7 |} |}.


(** A key of [S2] is changed when it is not reserved and its value in [S2]
    is not deeply equal to the value [S1] has under it. *)
Definition changed (S1 S2 : data) (k : string) : bool :=
  negb (String.prefix "_" k) && negb (JS.isEqual (JS.get S1 k) (JS.get S2 k)).

(** A mount followed by the runs of the autorun body for [contexts]. *)
Definition mounted (w : widget) (this : template) (contexts : list data)
    : M instance :=
  inst <- rendered w this ;; reruns w inst contexts.

(** The event name the specification derives: the lower-cased name. *)
Definition lowercasedEventName (opt : string) : string :=
  ("editable." ++ toLowerCase (JS.substring 3 opt))%string.

(** A widget that never throws, and a template with one event handler. *)
Definition silent : widget := fun _ _ _ => None.

Definition onSave : template :=
  {| tmpl_data := [("inlineMode", VBool true); ("_onSave", VFun 0);
                   ("_value", VStr "<p>hi</p>")];
     tmpl_input := {| jq_length := 1; froalaEditable := VUndefined;
                      editable := VFun 7 |} |}.

(** The instance a mount of [onSave] leaves behind, and a data context the
    reactive source delivers later: an option changed, one added, the
    callback replaced, the content changed. *)
Definition onSave_mounted : instance :=
  {| tmpl := onSave; froalaMethod := Editable; lastData := tmpl_data onSave |}.

Definition later : data :=
  [("inlineMode", VBool true); ("height", VNum 300); ("_onSave", VFun 1);
   ("_onLoad", VFun 2); ("_value", VStr "<p>bye</p>")].

(** [jq[m]]: the property of the jQuery object a method name selects. *)
Definition method_prop (m : method) (jq : jquery) : value :=
  match m with
  | FroalaEditable => froalaEditable jq
  | Editable => editable jq
  end.

(** A widget that throws on the option setter for one key and on nothing
    else, and a data context with two changed options around that key. *)
Definition refuses (key : string) : widget :=
  fun _ _ a =>
    match a with
    | SetOption k _ =>
        if String.eqb k key then Some (Foreign (VStr "unsupported")) else None
    | _ => None
    end.

Definition resized : data :=
  [("inlineMode", VBool false); ("height", VNum 300); ("width", VNum 80);
   ("_onSave", VFun 0); ("_value", VStr "<p>hi</p>")].

(** Whether the widget, after the effects [past], returns from each of the
    calls [l] made one after the other through [m]. *)
Fixpoint allReturn (w : widget) (m : method) (past : list effect)
    (l : list wargs) : bool :=
  match l with
  | [] => true
  | a :: l' =>
      match w past m a with
      | Some _ => false
      | None => allReturn w m (past ++ [Call m a]) l'
      end
  end.

(** ** Strings *)

Lemma index_zero_prefix (p s : string) :
  p <> "" -> (String.index 0 p s = Some 0%nat <-> String.prefix p s = true).
Proof.
  intros Hp. rewrite String.prefix_correct. split.
  - intros H. now apply String.index_correct1 in H.
  - intros H. destruct (String.index 0 p s) as [m|] eqn:E.
    + destruct m as [|m]; [reflexivity|].
      exfalso. apply (String.index_correct2 _ _ _ _ E 0%nat); [lia | lia | exact H].
    + exfalso. apply (String.index_correct3 0%nat 0%nat _ _ E Hp); [lia | exact H].
Qed.

Lemma indexOf_zero (s p : string) :
  p <> "" -> (JS.indexOf s p =? 0)%Z = String.prefix p s.
Proof.
  intros Hp. unfold JS.indexOf.
  destruct (String.prefix p s) eqn:E.
  - apply (index_zero_prefix p s Hp) in E. now rewrite E.
  - destruct (String.index 0 p s) as [m|] eqn:I; [|reflexivity].
    destruct m as [|m]; [|reflexivity].
    apply (index_zero_prefix p s Hp) in I. congruence.
Qed.

Lemma filter_Subseq {A} (f : A -> bool) (l : list A) : Subseq (filter f l) l.
Proof.
  induction l as [|x l IH]; simpl.
  - constructor.
  - destruct (f x); now constructor.
Qed.

(** ** Running computations *)

Lemma bind_Normal {A B} (c : M A) (k : A -> M B) past t a t' r :
  c past = (t, Normal a) -> k a (past ++ t) = (t', r) ->
  bind c k past = (t ++ t', r).
Proof. intros Hc Hk. unfold bind. now rewrite Hc, Hk. Qed.

Lemma call_quiet w m a past :
  quiet w -> call w m a past = ([Call m a], Normal tt).
Proof. intros Hw. unfold call. now rewrite Hw. Qed.

Lemma each_emit {A} (g : A -> effect) (l : list A) past :
  each l (fun x => emit (g x)) past = (map g l, Normal tt).
Proof.
  revert past. induction l as [|x l IH]; intros past; simpl.
  - reflexivity.
  - now apply (bind_Normal _ _ past [g x] tt).
Qed.

Lemma each_call_quiet {A} w m (g : A -> wargs) (l : list A) past :
  quiet w ->
  each l (fun x => call w m (g x)) past
  = (map (fun x => Call m (g x)) l, Normal tt).
Proof.
  intros Hw. revert past. induction l as [|x l IH]; intros past; simpl.
  - reflexivity.
  - apply (bind_Normal _ _ past [Call m (g x)] tt); [now apply call_quiet | apply IH].
Qed.

(** With a widget that does not throw, a run of the autorun body performs the
    content calls, then the option calls, and stores the new data context. *)
Lemma autorun_quiet w inst _data past :
  quiet w ->
  autorun w inst _data past
  = (contentCalls (froalaMethod inst) (lastData inst) _data
       ++ optionCalls (froalaMethod inst) (lastData inst) _data,
     Normal {| tmpl := tmpl inst; froalaMethod := froalaMethod inst;
               lastData := _data |}).
Proof.
  intros Hw. unfold autorun, contentCalls, optionCalls.
  eapply bind_Normal.
  - destruct (JS.truthy (JS.get _data "_value")
              && negb (JS.isEqual (JS.get (lastData inst) "_value")
                                  (JS.get _data "_value"))).
    + eapply (bind_Normal _ _ past [_] tt [_]); now apply call_quiet.
    + reflexivity.
  - rewrite <- (app_nil_r (map _ _)).
    eapply bind_Normal; [now apply each_call_quiet | reflexivity].
Qed.

(** With a widget that does not throw, a mount on exactly one element with a
    resolvable method instantiates the widget, sets the content if there is
    any, and binds one listener per event handler name. *)
Lemma rendered_quiet w this m past :
  quiet w ->
  jq_length (tmpl_input this) = 1%nat ->
  getFroalaEditableJQueryInstanceMethod (Some (tmpl_input this)) = Some m ->
  rendered w this past
  = (Call m (Init (tmpl_data this))
       :: (if JS.truthy (JS.get (tmpl_data this) "_value")
           then [Call m (SetHTML (JS.get (tmpl_data this) "_value"))]
           else [])
       ++ map (fun opt => On (_eventName opt) opt)
              (getEventHandlerNames (tmpl_data this)),
     Normal {| tmpl := this; froalaMethod := m;
               lastData := tmpl_data this |}).
Proof.
  intros Hw Hlen Hm. unfold rendered. rewrite Hlen, Hm. simpl negb. cbv iota.
  apply (bind_Normal _ _ past [_] tt); [now apply call_quiet|].
  eapply bind_Normal.
  - destruct (JS.truthy (JS.get (tmpl_data this) "_value")).
    + now apply call_quiet.
    + reflexivity.
  - rewrite <- (app_nil_r (map _ _)).
    eapply bind_Normal; [apply each_emit | reflexivity].
Qed.

Lemma last_cons {A} (l : list A) (a x : A) : last (a :: l) x = last l a.
Proof.
  revert a x. induction l as [|b l IH]; intros a x; [reflexivity|].
  change (last (a :: b :: l) x) with (last (b :: l) x).
  now rewrite !IH.
Qed.


Lemma autorun_effects_are_calls m lastData _data :
  contentCalls m lastData _data ++ optionCalls m lastData _data
  = map (Call m) (autorunArgs lastData _data).
Proof.
  unfold contentCalls, optionCalls, autorunArgs.
  rewrite map_app, map_map. now destruct (_ && _).
Qed.

(** Runs of the autorun body leave [tmpl] and [froalaMethod] alone, end with
    the last data context in [lastData], and do nothing but call the
    widget. *)
Lemma reruns_quiet w inst contexts past :
  quiet w ->
  exists l,
    reruns w inst contexts past
    = (map (Call (froalaMethod inst)) l,
       Normal {| tmpl := tmpl inst; froalaMethod := froalaMethod inst;
                 lastData := last contexts (lastData inst) |}).
Proof.
  intros Hw. revert inst past.
  induction contexts as [|d ds IH]; intros inst past.
  - exists []. now destruct inst.
  - set (inst' := {| tmpl := tmpl inst; froalaMethod := froalaMethod inst;
                     lastData := d |}).
    set (l1 := autorunArgs (lastData inst) d).
    destruct (IH inst' (past ++ map (Call (froalaMethod inst)) l1)) as (l & Hl).
    exists (l1 ++ l). cbn [reruns]. rewrite map_app.
    eapply bind_Normal.
    + rewrite autorun_quiet by exact Hw. now rewrite autorun_effects_are_calls.
    + fold inst' l1. rewrite Hl, last_cons. reflexivity.
Qed.

(** ** Event-binding discovery and setter-method resolution *)

(** C9.  Event-binding discovery is a function of the snapshot alone and
    returns exactly the keys that start with ['_on'] and hold a callable
    value, as a subsequence of the key enumeration, so in enumeration order;
    on [{_onSave: fn, _onLoad: "x", foo: fn, _onSave2: fn}] it returns
    [["_onSave", "_onSave2"]]. *)
Theorem getEventHandlerNames_discovers_callable_on_keys (tmplData : data) :
  getEventHandlerNames tmplData
  = filter (fun k => String.prefix "_on" k
                     && JS.isFunction (JS.get tmplData k))
           (JS.keys tmplData)
  /\ Subseq (getEventHandlerNames tmplData) (JS.keys tmplData)
  /\ (forall k,
        In k (getEventHandlerNames tmplData)
        <-> In k (JS.keys tmplData)
            /\ String.prefix "_on" k = true
            /\ JS.isFunction (JS.get tmplData k) = true)
  /\ getEventHandlerNames
       [("_onSave", VFun 0); ("_onLoad", VStr "x");
        ("foo", VFun 0); ("_onSave2", VFun 0)]
     = ["_onSave"; "_onSave2"].
Proof.
  assert (E : getEventHandlerNames tmplData
              = filter (fun k => String.prefix "_on" k
                                 && JS.isFunction (JS.get tmplData k))
                       (JS.keys tmplData)).
  { unfold getEventHandlerNames. apply filter_ext. intros k.
    now rewrite indexOf_zero. }
  split; [exact E|]. split; [|split].
  - apply filter_Subseq.
  - intros k. rewrite E, filter_In, andb_true_iff. tauto.
  - reflexivity.
Qed.

(** C5.  When the DOM lookup matches no element or more than one, mount
    throws [Error('invalid-froala-reactive-template')] having done nothing:
    no widget instantiation, no content-set call, no event subscription. *)
Theorem rendered_rejects_wrong_element_count
    (w : widget) (this : template) (past : list effect) :
  jq_length (tmpl_input this) <> 1%nat ->
  rendered w this past
  = ([], Throw (Error "invalid-froala-reactive-template")).
Proof.
  intros Hlen. unfold rendered.
  destruct (Nat.eqb_spec (jq_length (tmpl_input this)) 1); [contradiction|].
  reflexivity.
Qed.

(** C6.  When exactly one element matches and neither ['froalaEditable'] nor
    ['editable'] is callable on it, mount throws
    [Error('invalid-froala-editor-plugin')] before any widget call.  The
    resolution looks at ['froalaEditable'] first, then at ['editable'], and
    answers the first that is callable, [null] when none is. *)
Theorem rendered_rejects_missing_plugin
    (w : widget) (this : template) (past : list effect) :
  jq_length (tmpl_input this) = 1%nat ->
  JS.isFunction (froalaEditable (tmpl_input this)) = false ->
  JS.isFunction (editable (tmpl_input this)) = false ->
  rendered w this past = ([], Throw (Error "invalid-froala-editor-plugin"))
  /\ (forall jq, JS.isFunction (froalaEditable jq) = true ->
        getFroalaEditableJQueryInstanceMethod (Some jq) = Some FroalaEditable)
  /\ (forall jq, JS.isFunction (froalaEditable jq) = false ->
        JS.isFunction (editable jq) = true ->
        getFroalaEditableJQueryInstanceMethod (Some jq) = Some Editable)
  /\ (forall jq, JS.isFunction (froalaEditable jq) = false ->
        JS.isFunction (editable jq) = false ->
        getFroalaEditableJQueryInstanceMethod (Some jq) = None)
  /\ getFroalaEditableJQueryInstanceMethod None = None.
Proof.
  intros Hlen Hf He. split; [|repeat split].
  - unfold rendered, getFroalaEditableJQueryInstanceMethod.
    now rewrite Hlen, Hf, He.
  - intros jq H. unfold getFroalaEditableJQueryInstanceMethod. now rewrite H.
  - intros jq H1 H2. unfold getFroalaEditableJQueryInstanceMethod.
    now rewrite H1, H2.
  - intros jq H1 H2. unfold getFroalaEditableJQueryInstanceMethod.
    now rewrite H1, H2.
Qed.

Lemma rendered_rejects_missing_plugin_witness :
  rendered hostile no_plugin []
  = ([], Throw (Error "invalid-froala-editor-plugin")).
Proof.
  apply (rendered_rejects_missing_plugin hostile no_plugin []); reflexivity.
Defined.

Lemma rendered_rejects_wrong_element_count_witness :
  rendered hostile two_elements []
  = ([], Throw (Error "invalid-froala-reactive-template")).
Proof.
  apply (rendered_rejects_wrong_element_count hostile two_elements []).
  simpl. lia.
Defined.

(** With a resolvable method, unmount unbinds the event name of every event
    handler name of [tmpl.data], calls ['destroy'], and ends normally. *)
Lemma destroyed_resolved w this m past :
  getFroalaEditableJQueryInstanceMethod (Some (tmpl_input this)) = Some m ->
  destroyed w this past
  = (map (fun opt => Unbind (_eventName opt))
         (getEventHandlerNames (tmpl_data this))
     ++ [Call m Destroy], Normal tt).
Proof.
  intros Hm. unfold destroyed. rewrite Hm.
  eapply bind_Normal; [apply each_emit | reflexivity].
Qed.

(** C7.  Unmount never throws.  Without a resolvable method it does nothing;
    otherwise it ends normally after the destroy call whether or not that
    call threw. *)
Theorem destroyed_never_throws
    (w : widget) (this : template) (past : list effect) :
  snd (destroyed w this past) = Normal tt
  /\ (getFroalaEditableJQueryInstanceMethod (Some (tmpl_input this)) = None ->
      fst (destroyed w this past) = [])
  /\ (forall m,
        getFroalaEditableJQueryInstanceMethod (Some (tmpl_input this)) = Some m ->
        fst (destroyed w this past)
        = map (fun opt => Unbind (_eventName opt))
              (getEventHandlerNames (tmpl_data this))
          ++ [Call m Destroy]).
Proof.
  destruct (getFroalaEditableJQueryInstanceMethod (Some (tmpl_input this)))
    as [m|] eqn:Hm.
  - rewrite (destroyed_resolved w this m past Hm).
    repeat split; [discriminate|].
    intros m' Hm'. now inversion Hm'.
  - unfold destroyed. rewrite Hm. repeat split. discriminate.
Qed.

(** The destroy call does throw on the [hostile] widget, and unmount still
    ends normally. *)
Example destroyed_discards_the_exception :
  let this := {| tmpl_data := [("_onSave", VFun 0)];
                 tmpl_input := {| jq_length := 1; froalaEditable := VFun 1;
                                  editable := VNull |} |} in
  call hostile FroalaEditable Destroy [Unbind "editable.Save"]
  = ([Call FroalaEditable Destroy], Throw (Foreign (VStr "boom")))
  /\ destroyed hostile this []
     = ([Unbind "editable.Save"; Call FroalaEditable Destroy], Normal tt).
Proof. split; reflexivity. Qed.

(** ** Reactive recomputation *)

Lemma get_not_own (o : data) (k : string) :
  ~ In k (JS.keys o) -> JS.get o k = JS.inherited k.
Proof.
  induction o as [|[k' v] o IH]; simpl; intros H; [reflexivity|].
  destruct (String.eqb_spec k' k) as [->|_]; [tauto|].
  apply IH. tauto.
Qed.

Lemma existsb_eqb_In (k : string) (l : list string) :
  existsb (String.eqb k) l = true <-> In k l.
Proof.
  rewrite existsb_exists. split.
  - intros (x & Hx & E). apply String.eqb_eq in E. now subst.
  - intros H. exists k. split; [exact H | apply String.eqb_refl].
Qed.






Lemma changedOpts_changed (S1 S2 : data) :
  changedOpts S1 S2 = filter (changed S1 S2) (JS.keys S2).
Proof.
  unfold changedOpts, changed. apply filter_ext. intros k.
  now rewrite indexOf_zero.
Qed.




(** ** Deep equality of a value with itself *)

Example isEqual_ignores_key_order :
  JS.isEqual (VObj [("a", VNum 1); ("b", VArr [VStr "x"; VNull])])
             (VObj [("b", VArr [VStr "x"; VNull]); ("a", VNum 1)]) = true
  /\ JS.isEqual (VArr [VNum 1]) (VArr [VNum 1; VNum 2]) = false
  /\ JS.isEqual (VFun 0) (VFun 1) = false
  /\ JS.isEqual VUndefined VNull = false.
Proof. repeat split. Qed.

Lemma value_nested_ind (P : value -> Prop) :
  P VUndefined -> P VNull -> (forall b, P (VBool b)) -> (forall n, P (VNum n)) ->
  (forall s, P (VStr s)) -> (forall r, P (VFun r)) ->
  (forall xs, Forall P xs -> P (VArr xs)) ->
  (forall ps, Forall (fun p => P (snd p)) ps -> P (VObj ps)) ->
  forall v, P v.
Proof.
  intros Hu Hn Hb Hz Hs Hf Ha Ho.
  fix IH 1. intros [| |b|n|s|r|xs|ps].
  - exact Hu.
  - exact Hn.
  - apply Hb.
  - apply Hz.
  - apply Hs.
  - apply Hf.
  - apply Ha. induction xs as [|x xs IHxs]; constructor; [apply IH | exact IHxs].
  - apply Ho. induction ps as [|[k x] ps IHps]; constructor;
      [apply IH | exact IHps].
Qed.

Lemma find_distinct (ps : list (string * value)) (k : string) (v : value) :
  distinct (map fst ps) = true -> In (k, v) ps ->
  find (fun q => String.eqb (fst q) k) ps = Some (k, v).
Proof.
  induction ps as [|[k' v'] ps IH]; [contradiction|].
  cbn [map fst distinct find]. rewrite andb_true_iff, negb_true_iff.
  intros [Hfresh Hd] [Heq|Hin].
  - inversion Heq; subst. now rewrite String.eqb_refl.
  - destruct (String.eqb_spec k' k) as [->|_]; [|now apply IH].
    exfalso. apply (in_map fst) in Hin. cbn [fst] in Hin.
    apply existsb_eqb_In in Hin. congruence.
Qed.

(** [_.isEqual(v, v)] holds for every well-formed value. *)
Lemma isEqual_refl (v : value) : wf v = true -> JS.isEqual v v = true.
Proof.
  induction v as [| |b|n|s|r|xs IH|ps IH] using value_nested_ind;
    intros Hwf; cbn [JS.isEqual].
  - reflexivity.
  - reflexivity.
  - apply Bool.eqb_reflx.
  - apply Z.eqb_refl.
  - apply String.eqb_refl.
  - apply Nat.eqb_refl.
  - cbn [wf] in Hwf. induction xs as [|x xs IHxs]; [reflexivity|].
    cbn [forallb] in Hwf. apply andb_true_iff in Hwf. destruct Hwf as [Hx Hxs].
    inversion IH; subst. rewrite H1 by exact Hx. now apply IHxs.
  - cbn [wf] in Hwf. apply andb_true_iff in Hwf. destruct Hwf as [Hd Hall].
    rewrite Nat.eqb_refl. cbn [andb].
    assert (G : forall qs, (forall p, In p qs -> In p ps) ->
                (fix props (ps0 : list (string * value)) : bool :=
                   match ps0 with
                   | [] => true
                   | (k, v) :: ps' =>
                       match find (fun q => String.eqb (fst q) k) ps with
                       | Some q => JS.isEqual v (snd q)
                       | None => false
                       end && props ps'
                   end) qs = true).
    { induction qs as [|[k v] qs IHqs]; intros Hsub; [reflexivity|].
      rewrite (find_distinct ps k v Hd) by (apply Hsub; now left).
      cbn [snd]. rewrite IHqs by (intros p Hp; apply Hsub; now right).
      rewrite andb_true_r.
      assert (Hin : In (k, v) ps) by (apply Hsub; now left).
      rewrite Forall_forall in IH. apply (IH (k, v) Hin).
      rewrite forallb_forall in Hall. apply (Hall (k, v) Hin). }
    apply G. auto.
Qed.

Lemma wf_inherited (k : string) : wf (JS.inherited k) = true.
Proof.
  unfold JS.inherited.
  destruct (find _ JS.Object_prototype) as [p|] eqn:F; [|reflexivity].
  apply find_some in F. destruct F as [F _].
  cbn in F. repeat (destruct F as [<-|F]; [reflexivity|]). contradiction.
Qed.

Lemma wf_get (o : data) (k : string) :
  wf (VObj o) = true -> wf (JS.get o k) = true.
Proof.
  cbn [wf]. rewrite andb_true_iff. intros [_ H].
  induction o as [|[k' v] o IH]; [apply wf_inherited|].
  cbn [forallb snd] in H. apply andb_true_iff in H. destruct H as [Hv Ho].
  cbn [JS.get]. destruct (String.eqb k' k); [exact Hv | now apply IH].
Qed.

(** A recomputation on the snapshot that is already the last-known one makes
    no call at all. *)
Lemma autorun_same_snapshot_silent w inst past :
  quiet w -> wf (VObj (lastData inst)) = true ->
  fst (autorun w inst (lastData inst) past) = [].
Proof.
  intros Hw Hwf. rewrite autorun_quiet by exact Hw. cbn [fst].
  unfold contentCalls, optionCalls, changedOpts.
  rewrite isEqual_refl by now apply wf_get.
  rewrite andb_false_r. cbn [app].
  induction (JS.keys (lastData inst)) as [|k l IH]; [reflexivity|].
  cbn [filter]. rewrite isEqual_refl by now apply wf_get.
  rewrite andb_false_r. exact IH.
Qed.

(** ** Mount *)

Lemma calls_On (g : string -> string) (l : list string) :
  calls (map (fun x => On (g x) x) l) = [].
Proof. induction l as [|x l IH]; simpl; auto. Qed.

Lemma calls_app (t t' : list effect) : calls (t ++ t') = calls t ++ calls t'.
Proof. apply flat_map_app. Qed.

(** C10.  A mount that goes through instantiates the widget with the full
    snapshot and, when the snapshot's [_value] is truthy, makes exactly one
    ['setHTML'] call with it right after; it makes no
    ['restoreSelectionByMarkers'] call, and no ['setHTML'] call when [_value]
    is absent or falsy.  The run of the autorun body on that same snapshot
    adds no call. *)
Theorem rendered_sets_initial_content
    (w : widget) (this : template) (m : method) (past : list effect) :
  quiet w ->
  jq_length (tmpl_input this) = 1%nat ->
  getFroalaEditableJQueryInstanceMethod (Some (tmpl_input this)) = Some m ->
  wf (VObj (tmpl_data this)) = true ->
  let d := tmpl_data this in
  let v := JS.get d "_value" in
  let t := fst (rendered w this past) in
  exists inst rest,
    rendered w this past = (t, Normal inst)
    /\ t = Call m (Init d)
             :: (if JS.truthy v then [Call m (SetHTML v)] else []) ++ rest
    /\ calls rest = []
    /\ filter is_Init (calls t) = [Init d]
    /\ filter is_SetHTML (calls t) = (if JS.truthy v then [SetHTML v] else [])
    /\ filter is_Restore (calls t) = []
    /\ (~ In "_value" (JS.keys d) -> JS.truthy v = false)
    /\ fst (autorun w inst d (past ++ t)) = [].
Proof.
  intros Hw Hlen Hm Hwf d v t.
  pose proof (rendered_quiet w this m past Hw Hlen Hm) as R.
  fold d v in R.
  assert (Et : t = Call m (Init d)
                     :: (if JS.truthy v then [Call m (SetHTML v)] else [])
                     ++ map (fun opt => On (_eventName opt) opt)
                            (getEventHandlerNames d)).
  { subst t. now rewrite R. }
  exists {| tmpl := this; froalaMethod := m; lastData := d |},
         (map (fun opt => On (_eventName opt) opt) (getEventHandlerNames d)).
  assert (Hc : calls t = Init d :: (if JS.truthy v then [SetHTML v] else [])).
  { rewrite Et. cbn [calls flat_map app]. fold (calls
      ((if JS.truthy v then [Call m (SetHTML v)] else [])
         ++ map (fun opt => On (_eventName opt) opt) (getEventHandlerNames d))).
    rewrite calls_app, calls_On, app_nil_r. now destruct (JS.truthy v). }
  repeat split.
  - rewrite R. now rewrite Et.
  - exact Et.
  - apply calls_On.
  - rewrite Hc. now destruct (JS.truthy v).
  - rewrite Hc. now destruct (JS.truthy v).
  - rewrite Hc. now destruct (JS.truthy v).
  - intros Habs. subst v. now rewrite (get_not_own _ _ Habs).
  - apply (autorun_same_snapshot_silent w
             {| tmpl := this; froalaMethod := m; lastData := d |}); assumption.
Qed.

(** ** Listeners *)

Lemma listeners_fold (t : list effect) : listeners t = fold_left bindStep t [].
Proof. reflexivity. Qed.

Lemma fold_bind_calls m (l : list wargs) bound :
  fold_left bindStep (map (Call m) l) bound = bound.
Proof. revert bound. induction l as [|a l IH]; intros bound; simpl; auto. Qed.

Lemma fold_bind_On (l : list string) bound :
  fold_left bindStep (map (fun opt => On (_eventName opt) opt) l) bound
  = bound ++ map (fun opt => (_eventName opt, opt)) l.
Proof.
  revert bound. induction l as [|x l IH]; intros bound; simpl.
  - now rewrite app_nil_r.
  - rewrite IH, <- app_assoc. reflexivity.
Qed.

Lemma fold_bind_Unbind (l : list string) bound :
  fold_left bindStep (map (fun opt => Unbind (_eventName opt)) l) bound
  = filter (fun b => negb (existsb (fun opt => String.eqb (fst b) (_eventName opt)) l))
           bound.
Proof.
  revert bound. induction l as [|x l IH]; intros bound; simpl.
  - induction bound as [|b bound IHb]; simpl; congruence.
  - rewrite IH. clear IH. induction bound as [|b bound IHb]; simpl; [reflexivity|].
    destruct (String.eqb (fst b) (_eventName x)); simpl; [exact IHb|].
    destruct (existsb _ l); simpl; congruence.
Qed.

(** The effects of a mount that goes through and of the runs after it. *)
Lemma mounted_quiet w this m contexts past :
  quiet w ->
  jq_length (tmpl_input this) = 1%nat ->
  getFroalaEditableJQueryInstanceMethod (Some (tmpl_input this)) = Some m ->
  exists l,
    mounted w this contexts past
    = (fst (rendered w this past) ++ map (Call m) l,
       Normal {| tmpl := this; froalaMethod := m;
                 lastData := last contexts (tmpl_data this) |})
    /\ fst (rendered w this past)
       = map (Call m)
             (Init (tmpl_data this)
                :: (if JS.truthy (JS.get (tmpl_data this) "_value")
                    then [SetHTML (JS.get (tmpl_data this) "_value")]
                    else []))
         ++ map (fun opt => On (_eventName opt) opt)
                (getEventHandlerNames (tmpl_data this)).
Proof.
  intros Hw Hlen Hm.
  pose proof (rendered_quiet w this m past Hw Hlen Hm) as R.
  set (inst := {| tmpl := this; froalaMethod := m;
                  lastData := tmpl_data this |}) in *.
  destruct (reruns_quiet w inst contexts (past ++ fst (rendered w this past)) Hw)
    as [l Hl].
  exists l. rewrite R in *. cbn [fst] in *. split.
  - unfold mounted. eapply bind_Normal; [exact R | exact Hl].
  - cbn [map]. now destruct (JS.truthy _).
Qed.

Lemma listeners_mounted m (l l' : list wargs) (names : list string) :
  listeners ((map (Call m) l
              ++ map (fun opt => On (_eventName opt) opt) names)
             ++ map (Call m) l')
  = map (fun opt => (_eventName opt, opt)) names.
Proof.
  rewrite listeners_fold, !fold_left_app, fold_bind_calls, fold_bind_On,
    fold_bind_calls. reflexivity.
Qed.

(** ** Event names *)

Lemma prefix_split (p s : string) :
  String.prefix p s = true ->
  s = (p ++ JS.substring (String.length p) s)%string.
Proof.
  revert s. induction p as [|a p IH]; intros s H; [reflexivity|].
  destruct s as [|b s]; cbn [String.prefix] in H; [discriminate|].
  destruct (ascii_dec a b) as [->|]; [|discriminate].
  cbn [String.length JS.substring String.append]. f_equal. now apply IH.
Qed.

Lemma prefix_on_split (opt : string) :
  String.prefix "_on" opt = true -> opt = ("_on" ++ JS.substring 3 opt)%string.
Proof. apply (prefix_split "_on"). Qed.

Lemma prefix_on_name (name : string) :
  String.prefix "_on" ("_on" ++ name)%string = true.
Proof. destruct name; reflexivity. Qed.

Lemma eventName_on (name : string) :
  _eventName ("_on" ++ name)%string = ("editable." ++ name)%string.
Proof. reflexivity. Qed.

Lemma append_inj_l (p a b : string) : (p ++ a = p ++ b)%string -> a = b.
Proof.
  induction p as [|c p IH]; cbn [String.append]; intros E; [exact E|].
  inversion E. now apply IH.
Qed.

Lemma eventName_inj (opt opt' : string) :
  String.prefix "_on" opt = true -> String.prefix "_on" opt' = true ->
  _eventName opt = _eventName opt' -> opt = opt'.
Proof.
  intros H H' E. unfold _eventName in E. apply append_inj_l in E.
  rewrite (prefix_on_split opt H), (prefix_on_split opt' H'). now rewrite E.
Qed.

Lemma getEventHandlerNames_In (tmplData : data) (k : string) :
  In k (getEventHandlerNames tmplData)
  <-> In k (JS.keys tmplData)
      /\ String.prefix "_on" k = true
      /\ JS.isFunction (JS.get tmplData k) = true.
Proof.
  unfold getEventHandlerNames.
  rewrite filter_In, andb_true_iff, indexOf_zero by discriminate. tauto.
Qed.

(** Among the listeners bound for distinct [_on...] options, exactly one is
    bound under the event name of a given one of them. *)
Lemma listeners_under_name (names : list string) (opt : string) :
  NoDup names ->
  (forall o, In o names -> String.prefix "_on" o = true) ->
  In opt names ->
  filter (fun b => String.eqb (fst b) (_eventName opt))
         (map (fun o => (_eventName o, o)) names)
  = [(_eventName opt, opt)].
Proof.
  intros Hnd Hpre Hin.
  assert (G : forall l, (forall o, In o l -> In o names) -> NoDup l ->
              filter (fun b => String.eqb (fst b) (_eventName opt))
                     (map (fun o => (_eventName o, o)) l)
              = if existsb (String.eqb opt) l then [(_eventName opt, opt)] else []).
  { induction l as [|x l IH]; intros Hsub Hl; [reflexivity|].
    inversion Hl as [|? ? Hx Hl']; subst.
    cbn [map filter fst existsb].
    rewrite IH by (auto; intros o Ho; apply Hsub; now right).
    destruct (String.eqb_spec opt x) as [->|Hne].
    - rewrite String.eqb_refl. cbn [orb].
      destruct (existsb (String.eqb x) l) eqn:E; [|reflexivity].
      apply existsb_eqb_In in E. contradiction.
    - cbn [orb]. destruct (String.eqb_spec (_eventName x) (_eventName opt)) as [E|_];
        [|reflexivity].
      exfalso. apply Hne. symmetry. apply eventName_inj; auto.
      apply Hpre, Hsub. now left. }
  rewrite G by auto.
  apply existsb_eqb_In in Hin. now rewrite Hin.
Qed.

(** What firing [_eventName opt] does once the listeners are those a mount
    bound for [names]. *)
Lemma trigger_bound inst (t : list effect) (names : list string) opt e rest past :
  listeners t = map (fun o => (_eventName o, o)) names ->
  NoDup names ->
  (forall o, In o names -> String.prefix "_on" o = true) ->
  In opt names ->
  trigger inst t (_eventName opt) e rest past
  = ([PreventDefault e;
      Apply (JS.get (tmpl_data (tmpl inst)) opt) (lastData inst) (e :: rest)],
     Normal tt).
Proof.
  intros Hl Hnd Hpre Hin. unfold trigger.
  rewrite Hl, (listeners_under_name names opt Hnd Hpre Hin).
  reflexivity.
Qed.

Lemma silent_quiet : quiet silent.
Proof. intros past m a. reflexivity. Qed.

(** C3, as stated, fails: for the callable key [_onSave] the mount binds
    under ['editable.Save'], and binds nothing under the lower-cased
    ['editable.save']. *)
Lemma lowercased_event_name_not_subscribed :
  In "_onSave" (getEventHandlerNames (tmpl_data onSave))
  /\ subscribed (fst (rendered silent onSave [])) = ["editable.Save"]
  /\ lowercasedEventName "_onSave" = "editable.save"
  /\ ~ In (lowercasedEventName "_onSave")
          (subscribed (fst (rendered silent onSave []))).
Proof.
  repeat split.
  - cbn. now left.
  - cbn. intros [H|[]]. discriminate.
Qed.

(** C3, amended.  For every key [_on<Name>] of the initial snapshot whose
    value is callable, mount binds one listener under ['editable.' + <Name>],
    the name taken as it is written in the key; when that event fires, after
    any number of recomputations, the listener prevents the default action
    and applies the callback to the raw event and the parameters of the
    trigger, with [this] the last-known data context. *)
Theorem rendered_binds_listener_per_handler
    (w : widget) (this : template) (m : method) (contexts : list data)
    (name : string) (e : value) (rest : list value) :
  quiet w ->
  jq_length (tmpl_input this) = 1%nat ->
  getFroalaEditableJQueryInstanceMethod (Some (tmpl_input this)) = Some m ->
  NoDup (JS.keys (tmpl_data this)) ->
  In ("_on" ++ name)%string (JS.keys (tmpl_data this)) ->
  JS.isFunction (JS.get (tmpl_data this) ("_on" ++ name)%string) = true ->
  let d := tmpl_data this in
  exists t inst,
    mounted w this contexts [] = (t, Normal inst)
    /\ In (On ("editable." ++ name)%string ("_on" ++ name)%string) (fst (rendered w this []))
    /\ filter (fun b => String.eqb (fst b) ("editable." ++ name)%string) (listeners t)
       = [(("editable." ++ name)%string, ("_on" ++ name)%string)]
    /\ lastData inst = last contexts d
    /\ trigger inst t ("editable." ++ name)%string e rest t
       = ([PreventDefault e;
           Apply (JS.get d ("_on" ++ name)%string) (last contexts d) (e :: rest)],
          Normal tt).
Proof.
  intros Hw Hlen Hm Hnd Hin Hfun d. subst d.
  destruct (mounted_quiet w this m contexts [] Hw Hlen Hm) as (l & Hmt & Hr).
  assert (Hopt : In ("_on" ++ name)%string
                    (getEventHandlerNames (tmpl_data this))).
  { apply getEventHandlerNames_In. repeat split; try assumption.
    apply prefix_on_name. }
  assert (Hnames : NoDup (getEventHandlerNames (tmpl_data this)))
    by now apply NoDup_filter.
  assert (Hpre : forall o, In o (getEventHandlerNames (tmpl_data this)) ->
                 String.prefix "_on" o = true).
  { intros o Ho. now apply getEventHandlerNames_In in Ho. }
  rewrite Hr in Hmt.
  pose proof (listeners_mounted m
                (Init (tmpl_data this)
                   :: (if JS.truthy (JS.get (tmpl_data this) "_value")
                       then [SetHTML (JS.get (tmpl_data this) "_value")]
                       else []))
                l (getEventHandlerNames (tmpl_data this))) as Hl.
  eexists. eexists. split; [exact Hmt|]. split; [|split; [|split]].
  - rewrite Hr. apply in_or_app. right.
    rewrite <- eventName_on. apply (in_map (fun opt => On (_eventName opt) opt)).
    exact Hopt.
  - rewrite Hl, <- eventName_on. now apply listeners_under_name.
  - reflexivity.
  - rewrite <- eventName_on.
    now rewrite (trigger_bound _ _ _ ("_on" ++ name)%string e rest _
                   Hl Hnames Hpre Hopt).
Qed.

(** C4.  The listeners are bound once, at mount: the runs of the autorun
    body bind none, and the function a fired event applies is the value the
    initial snapshot has under the [_on...] key, whatever the later data
    contexts hold under that key. *)
Theorem listeners_apply_the_initial_callback
    (w : widget) (this : template) (m : method) (contexts : list data)
    (opt : string) (e : value) (rest : list value) :
  quiet w ->
  jq_length (tmpl_input this) = 1%nat ->
  getFroalaEditableJQueryInstanceMethod (Some (tmpl_input this)) = Some m ->
  NoDup (JS.keys (tmpl_data this)) ->
  In opt (getEventHandlerNames (tmpl_data this)) ->
  exists t inst,
    mounted w this contexts [] = (t, Normal inst)
    /\ listeners t = listeners (fst (rendered w this []))
    /\ listeners t = map (fun o => (_eventName o, o))
                         (getEventHandlerNames (tmpl_data this))
    /\ (forall f self args,
          In (Apply f self args) (fst (trigger inst t (_eventName opt) e rest t)) ->
          f = JS.get (tmpl_data this) opt)
    /\ filter (fun x => match x with Apply _ _ _ => true | _ => false end)
              (fst (trigger inst t (_eventName opt) e rest t))
       = [Apply (JS.get (tmpl_data this) opt) (lastData inst) (e :: rest)].
Proof.
  intros Hw Hlen Hm Hnd Hopt.
  destruct (mounted_quiet w this m contexts [] Hw Hlen Hm) as (l & Hmt & Hr).
  assert (Hnames : NoDup (getEventHandlerNames (tmpl_data this)))
    by now apply NoDup_filter.
  assert (Hpre : forall o, In o (getEventHandlerNames (tmpl_data this)) ->
                 String.prefix "_on" o = true).
  { intros o Ho. now apply getEventHandlerNames_In in Ho. }
  rewrite Hr in Hmt.
  pose proof (listeners_mounted m
                (Init (tmpl_data this)
                   :: (if JS.truthy (JS.get (tmpl_data this) "_value")
                       then [SetHTML (JS.get (tmpl_data this) "_value")]
                       else []))
                l (getEventHandlerNames (tmpl_data this))) as Hl.
  pose proof (listeners_mounted m
                (Init (tmpl_data this)
                   :: (if JS.truthy (JS.get (tmpl_data this) "_value")
                       then [SetHTML (JS.get (tmpl_data this) "_value")]
                       else []))
                [] (getEventHandlerNames (tmpl_data this))) as Hl0.
  cbn [map] in Hl0. rewrite app_nil_r in Hl0.
  eexists. eexists. split; [exact Hmt|].
  rewrite (trigger_bound _ _ _ opt e rest _ Hl Hnames Hpre Hopt).
  cbn [fst tmpl lastData filter]. split; [|split; [|split]].
  - rewrite Hr. cbn [map] in *. now rewrite Hl, Hl0.
  - exact Hl.
  - intros f self args [H|[H|[]]]; [discriminate | now inversion H].
  - reflexivity.
Qed.

(** ** Unmount *)




Lemma unbind_all (l : list string) :
  filter (fun b => negb (existsb (fun opt => String.eqb (fst b) (_eventName opt)) l))
         (map (fun o => (_eventName o, o)) l)
  = [].
Proof.
  assert (G : forall l', (forall o, In o l' -> In o l) ->
              filter (fun b => negb (existsb
                        (fun opt => String.eqb (fst b) (_eventName opt)) l))
                     (map (fun o => (_eventName o, o)) l') = []).
  { induction l' as [|x l' IH]; intros Hsub; [reflexivity|].
    cbn [map filter fst].
    assert (E : existsb (fun opt => String.eqb (_eventName x) (_eventName opt)) l
                = true).
    { apply existsb_exists. exists x. split; [apply Hsub; now left|].
      apply String.eqb_refl. }
    rewrite E. cbn [negb]. apply IH. intros o Ho. apply Hsub. now right. }
  apply G. auto.
Qed.



(** ** The properties at a concrete template *)

Lemma onSave_keys_NoDup : NoDup (JS.keys (tmpl_data onSave)).
Proof. repeat constructor; simpl; intuition discriminate. Qed.

Lemma later_keys_NoDup : NoDup (JS.keys later).
Proof. repeat constructor; simpl; intuition discriminate. Qed.

Example rendered_onSave :
  rendered silent onSave []
  = ([Call Editable (Init (tmpl_data onSave));
      Call Editable (SetHTML (VStr "<p>hi</p>"));
      On "editable.Save" "_onSave"],
     Normal onSave_mounted).
Proof. reflexivity. Qed.

Example autorun_later :
  autorun silent onSave_mounted later []
  = ([Call Editable (SetHTML (VStr "<p>bye</p>"));
      Call Editable RestoreSelectionByMarkers;
      Call Editable (SetOption "height" (VNum 300))],
     Normal {| tmpl := onSave; froalaMethod := Editable; lastData := later |}).
Proof. reflexivity. Qed.



Lemma rendered_sets_initial_content_witness :
  filter is_SetHTML (calls (fst (rendered silent onSave [])))
  = [SetHTML (VStr "<p>hi</p>")]
  /\ filter is_Restore (calls (fst (rendered silent onSave []))) = [].
Proof.
  destruct (rendered_sets_initial_content silent onSave Editable []
              silent_quiet eq_refl eq_refl eq_refl)
    as (inst & rest & _ & _ & _ & _ & H1 & H2 & _).
  split; [exact H1 | exact H2].
Defined.

Lemma rendered_binds_listener_per_handler_witness :
  exists t inst,
    mounted silent onSave [later] [] = (t, Normal inst)
    /\ trigger inst t "editable.Save" (VStr "event") [VStr "editor"] t
       = ([PreventDefault (VStr "event");
           Apply (VFun 0) later [VStr "event"; VStr "editor"]],
          Normal tt).
Proof.
  destruct (rendered_binds_listener_per_handler silent onSave Editable [later]
              "Save" (VStr "event") [VStr "editor"]
              silent_quiet eq_refl eq_refl onSave_keys_NoDup
              (or_intror (or_introl eq_refl)) eq_refl)
    as (t & inst & Hm & _ & _ & _ & Ht).
  exists t, inst. split; [exact Hm | exact Ht].
Defined.

Lemma listeners_apply_the_initial_callback_witness :
  JS.get later "_onSave" = VFun 1
  /\ exists t inst,
       mounted silent onSave [later] [] = (t, Normal inst)
       /\ forall f self args,
            In (Apply f self args)
               (fst (trigger inst t (_eventName "_onSave") (VStr "event") [] t)) ->
            f = VFun 0.
Proof.
  split; [reflexivity|].
  destruct (listeners_apply_the_initial_callback silent onSave Editable [later]
              "_onSave" (VStr "event") []
              silent_quiet eq_refl eq_refl onSave_keys_NoDup
              (or_introl eq_refl))
    as (t & inst & Hm & _ & _ & Hf & _).
  exists t, inst. split; [exact Hm | exact Hf].
Defined.


(** ** Computations with a widget that may throw *)

Lemma bind_assoc {A B C} (c : M A) (k : A -> M B) (k' : B -> M C) past :
  bind (bind c k) k' past = bind c (fun a => bind (k a) k') past.
Proof.
  unfold bind. destruct (c past) as [t [a|err]]; [|reflexivity].
  destruct (k a (past ++ t)) as [t' [b|err]]; [|reflexivity].
  rewrite (app_assoc past t t').
  destruct (k' b ((past ++ t) ++ t')) as [t'' r]. now rewrite app_assoc.
Qed.

Lemma bind_ext {A B} (c : M A) (k k' : A -> M B) past :
  (forall a p, k a p = k' a p) -> bind c k past = bind c k' past.
Proof.
  intros E. unfold bind. destruct (c past) as [t [a|err]]; [|reflexivity].
  now rewrite E.
Qed.

Lemma bind_ret_l {A B} (a : A) (k : A -> M B) past :
  bind (ret a) k past = k a past.
Proof.
  unfold bind, ret. rewrite app_nil_r. now destruct (k a past).
Qed.

Lemma each_map {A B} (h : A -> B) (f : B -> M unit) (l : list A) past :
  each (map h l) f past = each l (fun x => f (h x)) past.
Proof.
  revert past. induction l as [|x l IH]; intros past; [reflexivity|].
  cbn [map each]. apply bind_ext. intros _ p. apply IH.
Qed.

(** A run of the autorun body passes [autorunArgs] to the widget, one call
    after the other, and then stores the new data context. *)
Lemma autorun_as_each w inst _data past :
  autorun w inst _data past
  = bind (each (autorunArgs (lastData inst) _data) (call w (froalaMethod inst)))
         (fun _ => ret {| tmpl := tmpl inst; froalaMethod := froalaMethod inst;
                          lastData := _data |})
         past.
Proof.
  unfold autorun, autorunArgs.
  destruct (JS.truthy (JS.get _data "_value")
            && negb (JS.isEqual (JS.get (lastData inst) "_value")
                                (JS.get _data "_value"))).
  - cbn [app each]. rewrite !bind_assoc. apply bind_ext. intros _ p.
    rewrite bind_assoc. apply bind_ext. intros _ p'.
    unfold bind. now rewrite each_map.
  - cbn [app]. rewrite bind_ret_l. unfold bind. now rewrite each_map.
Qed.

Lemma bind_call {B} w m a (k : unit -> M B) past :
  bind (call w m a) k past
  = match w past m a with
    | Some err => ([Call m a], Throw err)
    | None => (Call m a :: fst (k tt (past ++ [Call m a])),
               snd (k tt (past ++ [Call m a])))
    end.
Proof.
  unfold bind, call. destruct (w past m a); [reflexivity|].
  now destruct (k tt (past ++ [Call m a])).
Qed.

(** Calls made one after the other either all return, or stop at the first
    that throws. *)
Lemma each_call_run w m (l : list wargs) past :
  each l (call w m) past = (map (Call m) l, Normal tt)
  \/ exists l1 a l2 err,
       l = l1 ++ a :: l2
       /\ each l (call w m) past = (map (Call m) (l1 ++ [a]), Throw err)
       /\ w (past ++ map (Call m) l1) m a = Some err.
Proof.
  revert past. induction l as [|a l IH]; intros past.
  - left. reflexivity.
  - cbn [each]. rewrite bind_call.
    destruct (w past m a) as [err|] eqn:Hw.
    + right. exists [], a, l, err. cbn [app map]. rewrite app_nil_r.
      repeat split. exact Hw.
    + destruct (IH (past ++ [Call m a])) as [E | (l1 & b & l2 & err & El & E & Hb)].
      * left. now rewrite E.
      * right. exists (a :: l1), b, l2, err. rewrite E. subst l.
        repeat split. cbn [map]. now rewrite <- app_assoc in Hb.
Qed.

(** Whatever the widget does, a run of the autorun body makes the calls of
    [autorunArgs] in order, up to the first that throws. *)
Lemma autorun_run w inst _data past :
  autorun w inst _data past
  = (map (Call (froalaMethod inst)) (autorunArgs (lastData inst) _data),
     Normal {| tmpl := tmpl inst; froalaMethod := froalaMethod inst;
               lastData := _data |})
  \/ exists l1 a l2 err,
       autorunArgs (lastData inst) _data = l1 ++ a :: l2
       /\ autorun w inst _data past
          = (map (Call (froalaMethod inst)) (l1 ++ [a]), Throw err)
       /\ w (past ++ map (Call (froalaMethod inst)) l1) (froalaMethod inst) a
          = Some err.
Proof.
  rewrite autorun_as_each.
  destruct (each_call_run w (froalaMethod inst)
              (autorunArgs (lastData inst) _data) past)
    as [E | (l1 & a & l2 & err & El & E & Ha)].
  - left. unfold bind. rewrite E. cbn. now rewrite app_nil_r.
  - right. exists l1, a, l2, err. repeat split; try assumption.
    unfold bind. now rewrite E.
Qed.

Lemma each_emit_then_ret {A B} (g : A -> effect) (l : list A) (b : B) past :
  bind (each l (fun x => emit (g x))) (fun _ => ret b) past
  = (map g l, Normal b).
Proof.
  rewrite <- (app_nil_r (map g l)).
  eapply bind_Normal; [apply each_emit | reflexivity].
Qed.

(** Whatever the widget does, a mount past its two checks stops at the
    instantiation, or at the content call, or goes through. *)
Lemma rendered_run w this m past :
  jq_length (tmpl_input this) = 1%nat ->
  getFroalaEditableJQueryInstanceMethod (Some (tmpl_input this)) = Some m ->
  (exists err,
     rendered w this past = ([Call m (Init (tmpl_data this))], Throw err))
  \/ (exists err,
        JS.truthy (JS.get (tmpl_data this) "_value") = true
        /\ rendered w this past
           = ([Call m (Init (tmpl_data this));
               Call m (SetHTML (JS.get (tmpl_data this) "_value"))],
              Throw err))
  \/ rendered w this past
     = (Call m (Init (tmpl_data this))
          :: (if JS.truthy (JS.get (tmpl_data this) "_value")
              then [Call m (SetHTML (JS.get (tmpl_data this) "_value"))]
              else [])
          ++ map (fun opt => On (_eventName opt) opt)
                 (getEventHandlerNames (tmpl_data this)),
        Normal {| tmpl := this; froalaMethod := m;
                  lastData := tmpl_data this |}).
Proof.
  intros Hlen Hm. unfold rendered. rewrite Hlen, Hm. cbn [Nat.eqb negb].
  rewrite bind_call.
  destruct (w past m (Init (tmpl_data this))) as [err|]; [left; eauto|].
  right. destruct (JS.truthy (JS.get (tmpl_data this) "_value")).
  - rewrite bind_call.
    destruct (w (past ++ [Call m (Init (tmpl_data this))]) m
                (SetHTML (JS.get (tmpl_data this) "_value"))) as [err|].
    + left. exists err. split; reflexivity.
    + right. now rewrite each_emit_then_ret.
  - right. now rewrite bind_ret_l, each_emit_then_ret.
Qed.

Lemma resolved_callable (jq : jquery) (m : method) :
  getFroalaEditableJQueryInstanceMethod (Some jq) = Some m ->
  JS.isFunction (method_prop m jq) = true.
Proof.
  unfold getFroalaEditableJQueryInstanceMethod.
  destruct (JS.isFunction (froalaEditable jq)) eqn:F.
  - intros H. inversion H. exact F.
  - destruct (JS.isFunction (editable jq)) eqn:E; [|discriminate].
    intros H. inversion H. exact E.
Qed.

Lemma prefix_on_reserved (k : string) :
  String.prefix "_on" k = true -> String.prefix "_" k = true.
Proof.
  intros H. rewrite (prefix_on_split k H).
  now destruct (JS.substring 3 k).
Qed.

Lemma isEqual_undefined (v : value) :
  JS.isEqual VUndefined v = true <-> v = VUndefined.
Proof. destruct v; cbn; split; congruence. Qed.

(** ** Recomputation with a widget that may throw *)

Lemma each_call_returns w m (l : list wargs) past :
  (allReturn w m past l = true
   /\ each l (call w m) past = (map (Call m) l, Normal tt))
  \/ (allReturn w m past l = false
      /\ exists l1 a l2 err,
           l = l1 ++ a :: l2
           /\ allReturn w m past l1 = true
           /\ w (past ++ map (Call m) l1) m a = Some err
           /\ each l (call w m) past
              = (map (Call m) (l1 ++ [a]), Throw err)).
Proof.
  revert past. induction l as [|a l IH]; intros past.
  - left. split; reflexivity.
  - cbn [each allReturn]. rewrite bind_call.
    destruct (w past m a) as [err|] eqn:Hw.
    + right. split; [reflexivity|]. exists [], a, l, err.
      cbn [app map allReturn]. rewrite app_nil_r. repeat split. exact Hw.
    + destruct (IH (past ++ [Call m a]))
        as [[Hr E] | (Hr & l1 & b & l2 & err & El & H1 & Hb & E)].
      * left. split; [exact Hr | now rewrite E].
      * right. split; [exact Hr|]. exists (a :: l1), b, l2, err.
        rewrite E. subst l. cbn [allReturn map]. rewrite Hw.
        rewrite <- app_assoc in Hb. repeat split; assumption.
Qed.

(** X1.  Whatever the widget does, a run of the autorun body makes the calls
    it has planned in their order and stops at the first that throws.  It
    ends normally exactly when the widget returns from every planned call,
    and then all of them were made and [lastData] is the new data context.
    Otherwise it ends with what the widget threw: every call before the
    throwing one returned, the throwing call is the last one made, and no
    new [lastData] comes out of the run. *)
Theorem autorun_stops_at_first_throw
    (w : widget) (inst : instance) (_data : data) (past : list effect) :
  let m := froalaMethod inst in
  let plan := autorunArgs (lastData inst) _data in
  let r := autorun w inst _data past in
  ((exists inst', snd r = Normal inst') <-> allReturn w m past plan = true)
  /\ (allReturn w m past plan = true ->
      r = (map (Call m) plan,
           Normal {| tmpl := tmpl inst; froalaMethod := m;
                     lastData := _data |}))
  /\ (allReturn w m past plan = false ->
      exists l1 a l2 err,
        plan = l1 ++ a :: l2
        /\ allReturn w m past l1 = true
        /\ w (past ++ map (Call m) l1) m a = Some err
        /\ r = (map (Call m) (l1 ++ [a]), Throw err)).
Proof.
  intros m plan r. subst r. rewrite autorun_as_each. fold m plan.
  unfold bind.
  destruct (each_call_returns w m plan past)
    as [[Hr E] | (Hr & l1 & a & l2 & err & El & H1 & Ha & E)]; rewrite E, Hr.
  - cbn. rewrite app_nil_r. repeat split; eauto; discriminate.
  - cbn [fst snd]. split; [|split].
    + split; [intros [i H]; discriminate | discriminate].
    + discriminate.
    + intros _. exists l1, a, l2, err. auto.
Qed.

(** The widget that refuses the last planned option: every planned call is
    made and the run still ends with the exception. *)
Example autorun_throws_at_last_option :
  autorun (refuses "width") onSave_mounted resized []
  = ([Call Editable (SetOption "inlineMode" (VBool false));
      Call Editable (SetOption "height" (VNum 300));
      Call Editable (SetOption "width" (VNum 80))],
     Throw (Foreign (VStr "unsupported"))).
Proof. reflexivity. Qed.

Example autorun_stops_at_refused_option :
  autorun (refuses "height") onSave_mounted resized []
  = ([Call Editable (SetOption "inlineMode" (VBool false));
      Call Editable (SetOption "height" (VNum 300))],
     Throw (Foreign (VStr "unsupported"))).
Proof. reflexivity. Qed.

Lemma autorunArgs_SetOption (lastData _data : data) (k : string) (v : value) :
  In (SetOption k v) (autorunArgs lastData _data)
  <-> In k (changedOpts lastData _data) /\ v = JS.get _data k.
Proof.
  unfold autorunArgs. rewrite in_app_iff, in_map_iff. split.
  - intros [H | (k' & E & Hin)].
    + destruct (_ && _); cbn in H; intuition discriminate.
    + inversion E; subst. auto.
  - intros [Hin ->]. right. exists k. auto.
Qed.

Lemma autorun_calls_planned w inst _data past m a :
  In (Call m a) (fst (autorun w inst _data past)) ->
  m = froalaMethod inst /\ In a (autorunArgs (lastData inst) _data).
Proof.
  destruct (autorun_run w inst _data past)
    as [E | (l1 & b & l2 & err & El & E & Hb)]; rewrite E; cbn [fst];
    rewrite in_map_iff; intros (a' & Ea & Hin); inversion Ea; subst a'.
  - auto.
  - split; [reflexivity|]. rewrite El. apply in_app_or in Hin.
    apply in_or_app. destruct Hin as [H | [-> | []]]; [now left | right; now left].
Qed.

(** X2.  Whatever the widget does, every option-setter call of a run carries
    a key of the new data context that does not start with an underscore (so
    never [_value], never an [_on...] key), with the value the new data
    context has under it, and that value is not deeply equal to the
    last-known one. *)
Theorem autorun_never_sets_reserved_keys
    (w : widget) (inst : instance) (_data : data) (past : list effect)
    (m : method) (k : string) (v : value) :
  In (Call m (SetOption k v)) (fst (autorun w inst _data past)) ->
  In k (JS.keys _data)
  /\ String.prefix "_" k = false
  /\ k <> "_value"
  /\ String.prefix "_on" k = false
  /\ v = JS.get _data k
  /\ JS.isEqual (JS.get (lastData inst) k) (JS.get _data k) = false
  /\ m = froalaMethod inst.
Proof.
  intros H. apply autorun_calls_planned in H. destruct H as [-> H].
  apply autorunArgs_SetOption in H. destruct H as [Hin ->].
  rewrite changedOpts_changed in Hin. apply filter_In in Hin.
  destruct Hin as [Hk Hc]. unfold changed in Hc.
  apply andb_true_iff in Hc. destruct Hc as [Hp He].
  apply negb_true_iff in Hp, He.
  repeat split; try assumption.
  - intros ->. discriminate.
  - destruct (String.prefix "_on" k) eqn:Hon; [|reflexivity].
    apply prefix_on_reserved in Hon. congruence.
Qed.

Lemma autorun_never_sets_reserved_keys_witness :
  String.prefix "_" "inlineMode" = false
  /\ VBool false = JS.get resized "inlineMode".
Proof.
  destruct (autorun_never_sets_reserved_keys (refuses "height") onSave_mounted
              resized [] Editable "inlineMode" (VBool false)
              (or_introl eq_refl))
    as (_ & Hp & _ & _ & Hv & _).
  split; [exact Hp | exact Hv].
Defined.

(** X9.  For an option key of the new data context that the last-known
    data context does not own, the run compares the new value with what the
    last-known object inherits under that key: the option is set exactly
    when the two are not deeply equal.  For a key that is not a member of
    [Object.prototype] this means: exactly when the new value is not
    [undefined]. *)
Theorem autorun_sets_new_option
    (w : widget) (inst : instance) (_data : data) (past : list effect)
    (k : string) :
  quiet w ->
  In k (JS.keys _data) ->
  String.prefix "_" k = false ->
  ~ In k (JS.keys (lastData inst)) ->
  (In (Call (froalaMethod inst) (SetOption k (JS.get _data k)))
      (fst (autorun w inst _data past))
   <-> JS.isEqual (JS.inherited k) (JS.get _data k) = false)
  /\ (JS.inherited k = VUndefined ->
      (In (Call (froalaMethod inst) (SetOption k (JS.get _data k)))
          (fst (autorun w inst _data past))
       <-> JS.get _data k <> VUndefined)).
Proof.
  intros Hw Hk Hp Habs.
  assert (Hch : In k (changedOpts (lastData inst) _data)
                <-> JS.isEqual (JS.inherited k) (JS.get _data k) = false).
  { rewrite changedOpts_changed, filter_In. unfold changed.
    rewrite Hp, (get_not_own _ _ Habs). cbn [negb andb].
    rewrite negb_true_iff. tauto. }
  assert (Hin : In (Call (froalaMethod inst) (SetOption k (JS.get _data k)))
                   (fst (autorun w inst _data past))
                <-> In k (changedOpts (lastData inst) _data)).
  { split.
    - intros H. apply autorun_calls_planned in H. destruct H as [_ H].
      now apply autorunArgs_SetOption in H.
    - intros H. rewrite autorun_quiet by exact Hw. cbn [fst].
      rewrite autorun_effects_are_calls. apply in_map.
      apply autorunArgs_SetOption. auto. }
  split; [now rewrite Hin|].
  intros Hu. rewrite Hin, Hch, Hu. split.
  - intros H E. rewrite E in H. discriminate.
  - intros H. destruct (JS.isEqual VUndefined (JS.get _data k)) eqn:E;
      [|reflexivity].
    apply isEqual_undefined in E. contradiction.
Qed.

Lemma autorun_sets_new_option_witness :
  In (Call Editable (SetOption "height" (VNum 300)))
     (fst (autorun silent onSave_mounted resized [])).
Proof.
  apply (autorun_sets_new_option silent onSave_mounted resized [] "height"
           silent_quiet).
  - cbn. auto.
  - reflexivity.
  - cbn. intuition discriminate.
  - reflexivity.
  - discriminate.
Defined.

(** A new key that is a member of [Object.prototype]: [toString] holding
    [undefined] is set, [valueOf] holding the inherited function is not. *)
Example autorun_compares_with_inherited_members :
  fst (autorun silent onSave_mounted
         [("toString", VUndefined); ("valueOf", JS.inherited "valueOf")] [])
  = [Call Editable (SetOption "toString" VUndefined)].
Proof. reflexivity. Qed.

(** X10.  Whatever the widget does, runs of the autorun body that all end
    normally keep [tmpl] and the method resolved at mount, and leave in
    [lastData] the last data context delivered. *)
Theorem reruns_keep_template_and_method
    (w : widget) (inst : instance) (contexts : list data)
    (past : list effect) (inst' : instance) :
  snd (reruns w inst contexts past) = Normal inst' ->
  tmpl inst' = tmpl inst
  /\ froalaMethod inst' = froalaMethod inst
  /\ lastData inst' = last contexts (lastData inst).
Proof.
  revert inst past. induction contexts as [|d ds IH]; intros inst past H.
  - cbn in H. inversion H. auto.
  - cbn [reruns] in H. unfold bind in H.
    destruct (autorun_run w inst d past)
      as [E | (l1 & a & l2 & err & _ & E & _)]; rewrite E in H.
    + destruct (reruns w _ ds _) as [t r] eqn:R. cbn [snd] in H. subst r.
      assert (R' : snd (reruns w {| tmpl := tmpl inst;
                                    froalaMethod := froalaMethod inst;
                                    lastData := d |} ds
                          (past ++ map (Call (froalaMethod inst))
                                       (autorunArgs (lastData inst) d)))
                   = Normal inst') by now rewrite R.
      apply IH in R'. cbn [tmpl froalaMethod lastData] in R'.
      now rewrite last_cons.
    + discriminate.
Qed.

Lemma reruns_keep_template_and_method_witness :
  lastData (match snd (reruns silent onSave_mounted [resized; later] []) with
            | Normal inst' => inst'
            | Throw _ => onSave_mounted
            end) = later.
Proof.
  exact (proj2 (proj2 (reruns_keep_template_and_method silent onSave_mounted
                         [resized; later] [] _ eq_refl))).
Defined.

(** X8.  A data context delivered twice in a row makes the second run
    silent: the two runs together make the calls of the first. *)
Theorem redelivered_context_is_silent
    (w : widget) (inst : instance) (d : data) (past : list effect) :
  quiet w ->
  wf (VObj d) = true ->
  reruns w inst [d; d] past
  = (fst (autorun w inst d past),
     Normal {| tmpl := tmpl inst; froalaMethod := froalaMethod inst;
               lastData := d |}).
Proof.
  intros Hw Hwf. cbn [reruns].
  set (inst1 := {| tmpl := tmpl inst; froalaMethod := froalaMethod inst;
                   lastData := d |}).
  set (t1 := contentCalls (froalaMethod inst) (lastData inst) d
             ++ optionCalls (froalaMethod inst) (lastData inst) d).
  assert (E1 : autorun w inst d past = (t1, Normal inst1))
    by now apply autorun_quiet.
  assert (E2 : autorun w inst1 d (past ++ t1) = ([], Normal inst1)).
  { pose proof (autorun_same_snapshot_silent w inst1 (past ++ t1) Hw Hwf) as S.
    pose proof (autorun_quiet w inst1 d (past ++ t1) Hw) as Q.
    cbn [lastData inst1] in S. rewrite Q in S. cbn [fst] in S.
    rewrite Q, S. reflexivity. }
  rewrite E1. cbn [fst]. rewrite <- (app_nil_r t1).
  eapply bind_Normal; [exact E1|].
  exact (bind_Normal _ _ _ [] inst1 [] _ E2 eq_refl).
Qed.

Lemma redelivered_context_is_silent_witness :
  fst (reruns silent onSave_mounted [later; later] [])
  = fst (autorun silent onSave_mounted later []).
Proof.
  rewrite (redelivered_context_is_silent silent onSave_mounted later []
             silent_quiet eq_refl).
  reflexivity.
Defined.

(** ** Mount with a widget that may throw *)

(** X3.  A mount that throws, for whatever reason and whatever the widget
    does, has bound no listener, and has made at most the instantiation and
    the content call. *)
Theorem rendered_throw_binds_nothing
    (w : widget) (this : template) (past : list effect) (err : exn) :
  snd (rendered w this past) = Throw err ->
  subscribed (fst (rendered w this past)) = []
  /\ (forall e, In e (fst (rendered w this past)) ->
        exists m a, e = Call m a /\ (is_Init a || is_SetHTML a = true)).
Proof.
  destruct (Nat.eq_dec (jq_length (tmpl_input this)) 1) as [Hlen|Hlen].
  - destruct (getFroalaEditableJQueryInstanceMethod (Some (tmpl_input this)))
      as [m|] eqn:Hm.
    + destruct (rendered_run w this m past Hlen Hm)
        as [[e E] | [(e & _ & E) | E]]; rewrite E; cbn [fst snd]; intros H.
      * split; [reflexivity|]. intros x [<-|[]]. eauto.
      * split; [reflexivity|]. intros x [<-|[<-|[]]]; eauto.
      * discriminate.
    + unfold rendered. rewrite Hlen, Hm. cbn. intros _.
      split; [reflexivity | contradiction].
  - unfold rendered. destruct (Nat.eqb_spec (jq_length (tmpl_input this)) 1);
      [contradiction|]. cbn. intros _. split; [reflexivity | contradiction].
Qed.

Lemma rendered_throw_binds_nothing_witness :
  snd (rendered hostile onSave []) = Throw (Foreign (VStr "boom"))
  /\ subscribed (fst (rendered hostile onSave [])) = [].
Proof.
  split; [reflexivity|].
  exact (proj1 (rendered_throw_binds_nothing hostile onSave []
                  (Foreign (VStr "boom")) eq_refl)).
Defined.

(** X4.  Whatever the widget does, every widget call of a mount and of an
    unmount goes through the method name the resolution answered for
    [$input], and the property of that name is callable. *)
Theorem widget_calls_use_a_callable_method
    (w : widget) (this : template) (past : list effect)
    (m : method) (a : wargs) :
  In (Call m a) (fst (rendered w this past))
  \/ In (Call m a) (fst (destroyed w this past)) ->
  getFroalaEditableJQueryInstanceMethod (Some (tmpl_input this)) = Some m
  /\ JS.isFunction (method_prop m (tmpl_input this)) = true.
Proof.
  assert (G : getFroalaEditableJQueryInstanceMethod (Some (tmpl_input this))
              = Some m ->
              getFroalaEditableJQueryInstanceMethod (Some (tmpl_input this))
              = Some m
              /\ JS.isFunction (method_prop m (tmpl_input this)) = true).
  { intros H. split; [exact H | now apply resolved_callable]. }
  intros [H|H]; apply G; clear G.
  - destruct (Nat.eq_dec (jq_length (tmpl_input this)) 1) as [Hlen|Hlen].
    + destruct (getFroalaEditableJQueryInstanceMethod (Some (tmpl_input this)))
        as [m0|] eqn:Hm.
      * destruct (rendered_run w this m0 past Hlen Hm)
          as [[e E] | [(e & _ & E) | E]]; rewrite E in H; cbn [fst] in H.
        -- destruct H as [H|[]]. now inversion H.
        -- destruct H as [H|[H|[]]]; now inversion H.
        -- destruct H as [H|H]; [now inversion H|].
           apply in_app_or in H. destruct H as [H|H].
           ++ destruct (JS.truthy _); [|contradiction].
              destruct H as [H|[]]. now inversion H.
           ++ apply in_map_iff in H. destruct H as (o & Ho & _). discriminate.
      * unfold rendered in H. rewrite Hlen, Hm in H. contradiction.
    + unfold rendered in H.
      destruct (Nat.eqb_spec (jq_length (tmpl_input this)) 1);
        [contradiction | contradiction H].
  - destruct (getFroalaEditableJQueryInstanceMethod (Some (tmpl_input this)))
      as [m0|] eqn:Hm.
    + rewrite (destroyed_resolved w this m0 past Hm) in H. cbn [fst] in H.
      apply in_app_or in H. destruct H as [H|[H|[]]].
      * apply in_map_iff in H. destruct H as (o & Ho & _). discriminate.
      * now inversion H.
    + unfold destroyed in H. rewrite Hm in H. contradiction.
Qed.

Lemma widget_calls_use_a_callable_method_witness :
  JS.isFunction (method_prop Editable (tmpl_input onSave)) = true.
Proof.
  exact (proj2 (widget_calls_use_a_callable_method silent onSave [] Editable
                  (Init (tmpl_data onSave)) (or_introl (or_introl eq_refl)))).
Defined.

(** ** Event names and listeners *)

Lemma map_eventName_NoDup (names : list string) :
  NoDup names ->
  (forall o, In o names -> String.prefix "_on" o = true) ->
  NoDup (map _eventName names).
Proof.
  induction 1 as [|x l Hx Hl IH]; intros Hpre; cbn [map]; constructor.
  - rewrite in_map_iff. intros (y & E & Hy). apply Hx.
    rewrite (eventName_inj x y); auto; apply Hpre; [now left | now right].
  - apply IH. intros o Ho. apply Hpre. now right.
Qed.

(** X5.  The event handler names of a data context with distinct keys derive
    pairwise distinct event names, and each handler name is recovered from
    its event name by putting ['_on'] in place of ['editable.']. *)
Theorem handler_names_derive_distinct_event_names (tmplData : data) :
  NoDup (JS.keys tmplData) ->
  NoDup (map _eventName (getEventHandlerNames tmplData))
  /\ (forall opt, In opt (getEventHandlerNames tmplData) ->
        ("_on" ++ JS.substring 9 (_eventName opt))%string = opt)
  /\ (forall opt opt', In opt (getEventHandlerNames tmplData) ->
        In opt' (getEventHandlerNames tmplData) ->
        _eventName opt = _eventName opt' -> opt = opt').
Proof.
  intros Hnd.
  assert (Hpre : forall o, In o (getEventHandlerNames tmplData) ->
                 String.prefix "_on" o = true).
  { intros o Ho. now apply getEventHandlerNames_In in Ho. }
  split; [|split].
  - apply map_eventName_NoDup; [now apply NoDup_filter | exact Hpre].
  - intros opt Hin. symmetry. exact (prefix_on_split opt (Hpre opt Hin)).
  - intros opt opt' H H'. apply eventName_inj; auto.
Qed.

Lemma handler_names_derive_distinct_event_names_witness :
  NoDup (map _eventName (getEventHandlerNames later)).
Proof.
  exact (proj1 (handler_names_derive_distinct_event_names later
                  later_keys_NoDup)).
Defined.

(** X7.  After a mount that went through, any recomputations and an unmount
    of that template instance that resolves a method, firing any event on
    [$input] runs no listener: no callback is applied any more. *)
Theorem no_callback_after_unmount
    (w : widget) (this : template) (m : method) (contexts : list data)
    (input' : jquery) (m' : method)
    (name : string) (e : value) (rest : list value) (past : list effect) :
  quiet w ->
  jq_length (tmpl_input this) = 1%nat ->
  getFroalaEditableJQueryInstanceMethod (Some (tmpl_input this)) = Some m ->
  getFroalaEditableJQueryInstanceMethod (Some input') = Some m' ->
  exists t inst,
    mounted w this contexts [] = (t, Normal inst)
    /\ trigger inst
         (t ++ fst (destroyed w {| tmpl_data := tmpl_data (tmpl inst);
                                   tmpl_input := input' |} t))
         name e rest past
       = ([], Normal tt).
Proof.
  intros Hw Hlen Hm Hm'.
  destruct (mounted_quiet w this m contexts [] Hw Hlen Hm) as (l & Hmt & Hr).
  rewrite Hr in Hmt.
  eexists. eexists. split; [exact Hmt|]. cbn [tmpl].
  rewrite (destroyed_resolved w {| tmpl_data := tmpl_data this;
                                   tmpl_input := input' |} m' _ Hm').
  cbn [fst tmpl_data].
  pose proof (listeners_mounted m
                (Init (tmpl_data this)
                   :: (if JS.truthy (JS.get (tmpl_data this) "_value")
                       then [SetHTML (JS.get (tmpl_data this) "_value")]
                       else []))
                l (getEventHandlerNames (tmpl_data this))) as Hl.
  rewrite listeners_fold in Hl.
  unfold trigger.
  rewrite listeners_fold, fold_left_app, Hl, fold_left_app,
    fold_bind_Unbind, unbind_all.
  reflexivity.
Qed.

Lemma no_callback_after_unmount_witness :
  exists t inst,
    mounted silent onSave [later] [] = (t, Normal inst)
    /\ trigger inst
         (t ++ fst (destroyed silent
                      {| tmpl_data := tmpl_data (tmpl inst);
                         tmpl_input := tmpl_input onSave |} t))
         "editable.Save" (VStr "event") [] []
       = ([], Normal tt).
Proof.
  exact (no_callback_after_unmount silent onSave Editable [later]
           (tmpl_input onSave) Editable "editable.Save" (VStr "event") [] []
           silent_quiet eq_refl eq_refl eq_refl).
Defined.
